(** * Spanish -> English translator: the chunk / translate / reassemble core

    A shallow embedding of [translate_text] (src/app.py, lines 17-43) and of
    the per-cell spreadsheet rule (src/app.py, line 105), with the Python
    built-ins they rest on ([str.strip], [str.splitlines], [str.join],
    [len], [str()], truthiness).

    Python strings are sequences of Unicode code points, so a string is a
    list of code points ([N]) and [len] is the length of that list.  The
    translation model is an external collaborator: it is a parameter of the
    development, a function from the batch of chunks to either a list of
    result dictionaries or a raised exception. *)

From Stdlib Require Import NArith ZArith Ascii DecimalString.
From stdpp Require Import base list gmap strings.

Local Open Scope N_scope.

(** ** Python strings *)

Abbreviation pystr := (list N).

(** A literal of the source, written as a Rocq string of ASCII characters. *)
Definition lit (s : string) : pystr :=
  N_of_ascii <$> String.list_ascii_of_string s.

(** [Py_UNICODE_ISSPACE]: the characters [str.strip()] removes. *)
Definition isspace (c : N) : bool :=
  ((9 <=? c) && (c <=? 13)) || ((28 <=? c) && (c <=? 32))
  || (c =? 133) || (c =? 160) || (c =? 5760)
  || ((8192 <=? c) && (c <=? 8202))
  || (c =? 8232) || (c =? 8233) || (c =? 8239) || (c =? 8287)
  || (c =? 12288).

(** [Py_UNICODE_ISLINEBREAK]: the line boundaries of [str.splitlines()]. *)
Definition islinebreak (c : N) : bool :=
  ((10 <=? c) && (c <=? 13)) || ((28 <=? c) && (c <=? 30))
  || (c =? 133) || (c =? 8232) || (c =? 8233).

Definition CR : N := 13.
Definition LF : N := 10.
Definition SP : N := 32.

(** The truth value of a string: [bool(s)] is [len(s) != 0]. *)
Definition nonempty (s : pystr) : bool :=
  match s with [] => false | _ :: _ => true end.

Fixpoint lstrip (s : pystr) : pystr :=
  match s with
  | [] => []
  | c :: s' => if isspace c then lstrip s' else s
  end.

Definition rstrip (s : pystr) : pystr := reverse (lstrip (reverse s)).

(** [s.strip()] *)
Definition strip (s : pystr) : pystr := rstrip (lstrip s).

(** [s.splitlines()]: [cur] holds the characters of the line being read,
    last one first.  A line ends at a line boundary, CR LF counting as one;
    the boundary is dropped; what follows the last boundary is a line only
    when it is not empty. *)
Fixpoint splitlines_from (cur : pystr) (s : pystr) : list pystr :=
  match s with
  | [] => match cur with [] => [] | _ :: _ => [reverse cur] end
  | c :: rest =>
      if islinebreak c then
        reverse cur ::
          match rest with
          | c' :: rest' =>
              if (c =? CR) && (c' =? LF) then splitlines_from [] rest'
              else splitlines_from [] rest
          | [] => splitlines_from [] rest
          end
      else splitlines_from (c :: cur) rest
  end.

Definition splitlines (s : pystr) : list pystr := splitlines_from [] s.

(** [sep.join(parts)] *)
Fixpoint join (sep : pystr) (parts : list pystr) : pystr :=
  match parts with
  | [] => []
  | [p] => p
  | p :: rest => p ++ sep ++ join sep rest
  end.

(** ** Python values *)

(** The values [translate_text] and the spreadsheet rule can meet.  A value
    of any other type (a float, a timestamp) enters the code only through
    its truth value and its [str()], which [PyOther] carries. *)
Inductive pyvalue :=
  | PyNone
  | PyBool (b : bool)
  | PyInt (n : Z)
  | PyStr (s : pystr)
  | PyOther (truth : bool) (text : pystr).

(** [bool(x)] *)
Definition truthy (x : pyvalue) : bool :=
  match x with
  | PyNone => false
  | PyBool b => b
  | PyInt n => negb (n =? 0)%Z
  | PyStr s => nonempty s
  | PyOther truth _ => truth
  end.

(** [str(x)] *)
Definition py_str (x : pyvalue) : pystr :=
  match x with
  | PyNone => lit "None"
  | PyBool true => lit "True"
  | PyBool false => lit "False"
  | PyInt n => lit (NilZero.string_of_int (Z.to_int n))
  | PyStr s => s
  | PyOther _ text => text
  end.

(** ** The chunking loop (lines 25-36) *)

Definition max_chunk_length : nat := 450.

(** One turn of the [for line in text.splitlines()] loop, on the pair of
    the variables [chunks] and [current_chunk]. *)
Definition chunk_step (st : list pystr * pystr) (line : pystr)
  : list pystr * pystr :=
  let '(chunks, current_chunk) := st in
  if (max_chunk_length <? length current_chunk + length line + 1)%nat then
    ((if nonempty current_chunk then chunks ++ [strip current_chunk]
      else chunks),
     line)
  else (chunks, current_chunk ++ [SP] ++ line).

(** The flush after the loop (lines 35-36). *)
Definition flush (st : list pystr * pystr) : list pystr :=
  let '(chunks, current_chunk) := st in
  if nonempty current_chunk then chunks ++ [strip current_chunk] else chunks.

Definition chunk_lines (lines : list pystr) : list pystr :=
  flush (fold_left chunk_step lines ([], [])).

(** The value of [chunks] at line 37, for the string [text] of line 24. *)
Definition chunks (text : pystr) : list pystr :=
  chunk_lines (splitlines text).

(** ** The translation backend (lines 38-42) *)

(** What the call [translator(chunks, max_length=512)] does: it returns a
    list of result dictionaries, or it raises an exception of class
    [Exception], given here by its message [str(e)]. *)
Inductive outcome :=
  | Returned (results : list (gmap pystr pystr))
  | Raised (e : pystr).

(** A backend invocation: the batch and the [max_length] keyword. *)
Record call := Call { call_batch : list pystr; call_max_length : nat }.

Definition translation_text : pystr := lit "translation_text".

(** [str(KeyError('translation_text'))] *)
Definition key_error : pystr := lit "'translation_text'".

(** [f"[Translation error: {e}]"] *)
Definition error_text (e : pystr) : pystr :=
  lit "[Translation error: " ++ e ++ lit "]".

(** [[r['translation_text'] for r in results]]: [None] when a result lacks
    the key, which raises [KeyError] inside the [try]. *)
Definition translation_texts (results : list (gmap pystr pystr))
  : option (list pystr) :=
  mapM (fun r : gmap pystr pystr => r !! translation_text) results.

(** [sep.join] of line 43. *)
Definition reassemble (translations : list pystr) : pystr :=
  join [LF; LF] translations.

Section Pipeline.

Variable translator : list pystr -> nat -> outcome.

(** The value of [translations] after the [try] / [except] block. *)
Definition translate_batch (chunks : list pystr) : list pystr :=
  match translator chunks 512%nat with
  | Returned results =>
      match translation_texts results with
      | Some translations => translations
      | None => [error_text key_error]
      end
  | Raised e => [error_text e]
  end.

(** [translate_text(text)]: the value returned and the backend
    invocations made, in order. *)
Definition translate_text (text : pyvalue) : pyvalue * list call :=
  if negb (truthy text) || negb (nonempty (strip (py_str text))) then
    (text, [])
  else
    let text := py_str text in
    let chunks := chunks text in
    (PyStr (reassemble (translate_batch chunks)), [Call chunks 512]).

(** ** The spreadsheet rule (line 105) *)

(** [lambda x: translate_text(str(x)) if isinstance(x, str) and x.strip()
    else x] *)
Definition translate_cell (x : pyvalue) : pyvalue * list call :=
  match x with
  | PyStr s =>
      if nonempty (strip s) then translate_text (PyStr (py_str x))
      else (x, [])
  | _ => (x, [])
  end.

(** Element-wise application, collecting the backend invocations. *)
Fixpoint map_calls {A B : Type} (f : A -> B * list call) (l : list A)
  : list B * list call :=
  match l with
  | [] => ([], [])
  | x :: l' =>
      let '(y, c1) := f x in
      let '(ys, c2) := map_calls f l' in
      (y :: ys, c1 ++ c2)
  end.

(** [df.applymap(f)]: a frame is the list of its columns, each the list
    of its cells; the function is applied column by column. *)
Definition applymap (f : pyvalue -> pyvalue * list call)
    (df : list (list pyvalue)) : list (list pyvalue) * list call :=
  map_calls (map_calls f) df.

Definition df_translated (df : list (list pyvalue))
  : list (list pyvalue) * list call :=
  applymap translate_cell df.

End Pipeline.

(** ** Backends used in the statements *)

(** The result dictionary the pipeline builds for one output text. *)
Definition result_of (t : pystr) : gmap pystr pystr :=
  {[ translation_text := t ]}.

(** A backend that translates every text of the batch with [f] and never
    fails. *)
Definition backend_of (f : pystr -> pystr) : list pystr -> nat -> outcome :=
  fun batch _ => Returned (result_of <$> (f <$> batch)).

(** The identity backend: each chunk is translated to itself. *)
Definition identity_backend : list pystr -> nat -> outcome :=
  backend_of id.

(** The stub of the spec's examples: "Hola" -> "Hello", "mundo" -> "world",
    any other text left as it is. *)
Definition stub (t : pystr) : pystr :=
  if decide (t = lit "Hola") then lit "Hello"
  else if decide (t = lit "mundo") then lit "world"
  else t.

(** A backend that fails on every batch with the message [e]. *)
Definition failing_backend (e : pystr) : list pystr -> nat -> outcome :=
  fun _ _ => Raised e.

(** The non-whitespace content of a string. *)
Definition nonws (s : pystr) : pystr :=
  filter (fun c => isspace c = false) s.

(** A string of whitespace only (the empty string included). *)
Definition blank (s : pystr) : Prop := Forall (fun c => isspace c = true) s.

(** A whitespace-trimmed string: neither its first nor its last character
    is whitespace. *)
Definition trimmed (s : pystr) : Prop :=
  (forall c, head s = Some c -> isspace c = false) /\
  (forall c, last s = Some c -> isspace c = false).

(** A cut of the source lines into chunks: the lines are taken in order, in
    consecutive runs; a run is joined by single spaces and trimmed to give
    one chunk; an empty line may be left out between two runs. *)
Inductive chunking : list pystr -> list pystr -> Prop :=
  | chunking_nil : chunking [] []
  | chunking_run run lines chunks :
      run <> [] ->
      chunking lines chunks ->
      chunking (run ++ lines) (strip (join [SP] run) :: chunks)
  | chunking_skip lines chunks :
      chunking lines chunks ->
      chunking ([] :: lines) chunks.

(** What a chunk is allowed to be: within the bound, or one over-long
    source line, trimmed. *)
Definition bounded_or_single_line (lines : list pystr) (c : pystr) : Prop :=
  (length c <= max_chunk_length)%nat \/
  exists line, line ∈ lines /\ (max_chunk_length < length line)%nat /\
               c = strip line.

(** [current_chunk] holds the run [run] of lines: joined by single spaces,
    after a leading space when the run was started on an empty buffer. *)
Definition buffer_of (run : list pystr) (cur : pystr) : Prop :=
  (run = [] /\ cur = []) \/
  (run <> [] /\ (cur = join [SP] run \/ cur = SP :: join [SP] run)).

(** The state of the loop after the lines [done]. *)
Definition cut_so_far (done : list pystr) (st : list pystr * pystr) : Prop :=
  exists pre run,
    done = pre ++ run /\ chunking pre st.1 /\ buffer_of run st.2.

(** ** Sample inputs *)

(** A text of two lines that gives two chunks: 450 times "a", then "Hola". *)
Definition two_chunk_text : pystr := replicate 450 97 ++ [LF] ++ lit "Hola".

(** An empty first line, then a line of 450 times "x". *)
Definition blank_then_long_text : pystr := [LF] ++ replicate 450 120.

(** One line of 451 times "x". *)
Definition long_line : pystr := replicate 451 120.

(** Three lines: "Hola", the line of 451 times "x", "mundo". *)
Definition long_line_text : pystr :=
  lit "Hola" ++ [LF] ++ long_line ++ [LF] ++ lit "mundo".

(** ** The callers of [translate_text] *)

(** [s.split('\n\n')] (lines 64, 92, 145): the string is cut at every
    occurrence of two newlines, found from the left and not overlapping;
    [cur] holds the characters of the piece being read, last one first. The
    result always has a piece, the empty string giving one empty piece. *)
Fixpoint split_from (cur : pystr) (s : pystr) : list pystr :=
  match s with
  | [] => [reverse cur]
  | c :: rest =>
      match rest with
      | c' :: rest' =>
          if (c =? LF) && (c' =? LF) then reverse cur :: split_from [] rest'
          else split_from (c :: cur) rest
      | [] => split_from (c :: cur) rest
      end
  end.

Definition split_paragraphs (s : pystr) : list pystr := split_from [] s.

(** The characters [doc.add_paragraph] takes: python-docx turns a tab into
    a tab element and a newline or a carriage return into a line break, and
    writes the other characters through lxml, which refuses the control
    characters below U+0020, the surrogates, U+FFFE and U+FFFF. *)
Definition xml_char (c : N) : bool :=
  (c =? 9) || (c =? 10) || (c =? 13)
  || ((32 <=? c) && negb ((55296 <=? c) && (c <=? 57343))
      && negb (c =? 65534) && negb (c =? 65535)).

(** [doc.add_paragraph(para)]: a document is the list of the texts its
    paragraphs were made from; the paragraph is added at the end, or the
    call raises [ValueError] ([None]) when [para] holds a character that is
    refused. *)
Definition add_paragraph (doc : list pystr) (para : pystr)
  : option (list pystr) :=
  if forallb xml_char para then Some (doc ++ [para]) else None.

(** [for para in paras: doc.add_paragraph(para)]: the first call that
    raises ends the loop and the handler. *)
Fixpoint add_paragraphs (doc : list pystr) (paras : list pystr)
  : option (list pystr) :=
  match paras with
  | [] => Some doc
  | para :: paras' =>
      match add_paragraph doc para with
      | Some doc' => add_paragraphs doc' paras'
      | None => None
      end
  end.

(** The Word document built by [doc = docx.Document()] and
    [for para in s.split('\n\n'): doc.add_paragraph(para)]
    (lines 63-65, 91-93, 144-146): its paragraphs, or [None] when
    [add_paragraph] raises. *)
Definition word_paragraphs (s : pystr) : option (list pystr) :=
  add_paragraphs [] (split_paragraphs s).


(** The text of an uploaded PDF (lines 127-131): [page_texts] holds what
    [page.extract_text()] gave for each page, [None] for Python's [None]. *)
Definition pdf_page_step (text : pystr) (page_text : option pystr) : pystr :=
  match page_text with
  | Some t => if nonempty t then text ++ (t ++ [LF]) else text
  | None => text
  end.

Definition pdf_text (page_texts : list (option pystr)) : pystr :=
  fold_left pdf_page_step page_texts [].

(** The pages that give text, in order. *)
Definition kept_pages (page_texts : list (option pystr)) : list pystr :=
  omap (fun p : option pystr =>
          match p with
          | Some t => if nonempty t then Some t else None
          | None => None
          end) page_texts.

(** The condition of the spreadsheet rule: [isinstance(x, str) and
    x.strip()]. *)
Definition translatable (x : pyvalue) : bool :=
  match x with PyStr s => nonempty (strip s) | _ => false end.

(** A text that [doc.add_paragraph] takes. *)
Definition xml_text (s : pystr) : Prop :=
  Forall (fun c => xml_char c = true) s.

(** The length of the buffer that holds the lines, each after one space. *)
Definition buffer_length (lines : list pystr) : nat :=
  length (concat ((fun l : pystr => SP :: l) <$> lines)).

Section Callers.

Variable translator : list pystr -> nat -> outcome.


(** The text-file and PDF handlers after the text is read (lines 83-93,
    136-146): the translated text, shown and offered as a text download
    before the Word document is built, and the paragraphs of the Word
    download, [None] when building it raises; the outer [None] as for the
    canvas. *)
Definition translate_upload (text : pystr)
  : option (pystr * option (list pystr)) * list call :=
  let '(translated_text, calls) := translate_text translator (PyStr text) in
  match translated_text with
  | PyStr s => (Some (s, word_paragraphs s), calls)
  | _ => (None, calls)
  end.

Definition translate_pdf (page_texts : list (option pystr))
  : option (pystr * option (list pystr)) * list call :=
  translate_upload (pdf_text page_texts).

End Callers.

(** ** More sample inputs *)

(** A backend whose results lack the key [translation_text]. *)
Definition keyless_backend : list pystr -> nat -> outcome :=
  fun batch _ => Returned ((fun _ : pystr => ∅) <$> batch).

(** Two short lines: "Hola", "mundo". *)
Definition hola_mundo_text : pystr := lit "Hola" ++ [LF] ++ lit "mundo".

(** Three pages: one without text, one with "Hola", one with "mundo". *)
Definition sample_pages : list (option pystr) :=
  [None; Some (lit "Hola"); Some []; Some (lit "mundo")].

(** Pages that give no text or whitespace only. *)
Definition blank_pages : list (option pystr) := [None; Some []; Some [SP]].

(** A page that gives one form feed. *)
Definition form_feed_pages : list (option pystr) := [Some [12]].


(** * Properties *)

(** ** Characters, [strip] *)
Lemma islinebreak_isspace c : islinebreak c = true -> isspace c = true.
Proof.
  unfold islinebreak, isspace.
  rewrite !orb_true_iff, !andb_true_iff, !N.leb_le, !N.eqb_eq. lia.
Qed.

Lemma nonempty_true (s : pystr) : nonempty s = true <-> s <> [].
Proof. destruct s; simpl; split; congruence. Qed.

Lemma nonempty_false (s : pystr) : nonempty s = false <-> s = [].
Proof. destruct s; simpl; split; congruence. Qed.

(** [lstrip] removes a blank prefix and stops at a character that is not
    whitespace. *)
Lemma lstrip_split (s : pystr) :
  exists p, s = p ++ lstrip s /\ blank p.
Proof.
  induction s as [|c s [p [Hs Hp]]]; simpl.
  - exists []. split; [done | constructor].
  - destruct (isspace c) eqn:Hc.
    + exists (c :: p). split; [simpl; congruence | by constructor].
    + exists []. split; [done | constructor].
Qed.

Lemma lstrip_head (s : pystr) c : head (lstrip s) = Some c -> isspace c = false.
Proof.
  induction s as [|a s IH]; simpl; [done |].
  destruct (isspace a) eqn:Ha; [done |]. simpl. congruence.
Qed.

Lemma lstrip_blank (s : pystr) : blank s <-> lstrip s = [].
Proof.
  split.
  - induction 1 as [|c s Hc _ IH]; simpl; [done | by rewrite Hc].
  - induction s as [|c s IH]; simpl; [constructor |].
    destruct (isspace c) eqn:Hc; [| discriminate].
    intros H. constructor; [done | by apply IH].
Qed.

Lemma blank_app (s t : pystr) : blank (s ++ t) <-> blank s /\ blank t.
Proof. apply Forall_app. Qed.

Lemma blank_reverse (s : pystr) : blank (reverse s) <-> blank s.
Proof. unfold blank. by rewrite Forall_reverse. Qed.

Lemma rstrip_split (s : pystr) :
  exists q, s = rstrip s ++ q /\ blank q.
Proof.
  destruct (lstrip_split (reverse s)) as [p [Hs Hp]].
  exists (reverse p). split; [| by apply blank_reverse].
  unfold rstrip. rewrite <- reverse_app, <- Hs. by rewrite reverse_involutive.
Qed.

Lemma rstrip_last (s : pystr) c : last (rstrip s) = Some c -> isspace c = false.
Proof.
  unfold rstrip. rewrite last_reverse. apply lstrip_head.
Qed.

(** [strip] cuts a blank prefix and a blank suffix off the string. *)
Lemma strip_split (s : pystr) :
  exists p q, s = p ++ strip s ++ q /\ blank p /\ blank q.
Proof.
  destruct (lstrip_split s) as [p [Hs Hp]].
  destruct (rstrip_split (lstrip s)) as [q [Ht Hq]].
  exists p, q. unfold strip. by rewrite <- Ht.
Qed.

Lemma strip_length (s : pystr) : (length (strip s) <= length s)%nat.
Proof.
  destruct (strip_split s) as (p & q & Hs & _).
  rewrite Hs at 2. rewrite !length_app. lia.
Qed.

Lemma strip_blank (s : pystr) : blank s <-> strip s = [].
Proof.
  unfold strip, rstrip. split.
  - intros H. apply lstrip_blank in H. rewrite H. reflexivity.
  - intros H. apply (f_equal reverse) in H.
    rewrite reverse_involutive in H. change (reverse []) with (@nil N) in H.
    apply lstrip_blank in H. apply (proj1 (blank_reverse _)) in H.
    destruct (lstrip_split s) as [p [Hs Hp]]. rewrite Hs.
    apply blank_app; split; assumption.
Qed.

Lemma strip_trimmed (s : pystr) : trimmed (strip s).
Proof.
  split; intros c Hc.
  - destruct (rstrip_split (lstrip s)) as [q [Ht _]].
    apply (lstrip_head s). rewrite Ht. fold (strip s).
    destruct (strip s); simpl in *; congruence.
  - by apply (rstrip_last (lstrip s)).
Qed.

Lemma nonws_app (s t : pystr) : nonws (s ++ t) = nonws s ++ nonws t.
Proof. apply filter_app. Qed.

Lemma nonws_blank (s : pystr) : blank s -> nonws s = [].
Proof.
  induction 1 as [|c s Hc _ IH]; [done |].
  unfold nonws in *. rewrite filter_cons. case_decide; congruence.
Qed.

Lemma nonws_strip (s : pystr) : nonws (strip s) = nonws s.
Proof.
  destruct (strip_split s) as (p & q & Hs & Hp & Hq).
  rewrite Hs at 2. rewrite !nonws_app, (nonws_blank p), (nonws_blank q) by done.
  by rewrite app_nil_r.
Qed.

Lemma strip_cons_space (c : N) (s : pystr) :
  isspace c = true -> strip (c :: s) = strip s.
Proof. intros Hc. unfold strip. simpl. by rewrite Hc. Qed.
Lemma nonws_cons_space (c : N) (s : pystr) :
  isspace c = true -> nonws (c :: s) = nonws s.
Proof. intros Hc. unfold nonws. rewrite filter_cons. case_decide; congruence. Qed.

(** ** [splitlines] *)

(** The lines hold the characters of the text that are not whitespace, in
    order: only line boundaries are dropped, and they are whitespace. *)
Lemma splitlines_from_cons (cur : pystr) (c : N) (rest : pystr) :
  splitlines_from cur (c :: rest) =
    if islinebreak c then
      reverse cur ::
        splitlines_from []
          (match rest with
           | c' :: rest' => if (c =? CR) && (c' =? LF) then rest' else rest
           | [] => rest
           end)
    else splitlines_from (c :: cur) rest.
Proof.
  simpl. destruct (islinebreak c); [| done].
  destruct rest as [|c' rest']; [done |].
  by destruct ((c =? CR) && (c' =? LF)).
Qed.

Lemma splitlines_from_nonws (n : nat) :
  forall (s cur : pystr), (length s <= n)%nat ->
    nonws (concat (splitlines_from cur s)) = nonws (reverse cur ++ s).
Proof.
  induction n as [|n IH]; intros [|c rest] cur Hlen; simpl in Hlen; try lia.
  - destruct cur; simpl; by rewrite ?app_nil_r.
  - destruct cur; simpl; by rewrite ?app_nil_r.
  - rewrite splitlines_from_cons. destruct (islinebreak c) eqn:Hb.
    + rewrite concat_cons, !nonws_app.
      rewrite (nonws_cons_space c) by by apply islinebreak_isspace.
      f_equal. destruct rest as [|c' rest']; [by rewrite IH by (simpl; lia) |].
      destruct ((c =? CR) && (c' =? LF)) eqn:Hcr.
      * rewrite IH by (simpl in Hlen; lia).
        apply andb_true_iff in Hcr as [_ Hlf]. apply N.eqb_eq in Hlf.
        subst c'. by rewrite (nonws_cons_space LF).
      * by rewrite IH by lia.
    + rewrite IH by lia. by rewrite reverse_cons, <- app_assoc.
Qed.

Lemma splitlines_nonws (s : pystr) :
  nonws (concat (splitlines s)) = nonws s.
Proof. unfold splitlines. by rewrite (splitlines_from_nonws (length s)). Qed.

(** A text without a line boundary is one line, when it is not empty. *)
Lemma splitlines_from_single (s cur : pystr) :
  Forall (fun c => islinebreak c = false) s ->
  splitlines_from cur s =
    if nonempty (reverse cur ++ s) then [reverse cur ++ s] else [].
Proof.
  intros Hs. revert cur.
  induction Hs as [|c s Hc _ IH]; intros cur; simpl.
  - rewrite app_nil_r. destruct cur as [|a cur]; simpl; [done |].
    rewrite reverse_cons. by destruct (reverse cur).
  - rewrite Hc, IH, reverse_cons, <- app_assoc. done.
Qed.

Lemma splitlines_single (s : pystr) :
  Forall (fun c => islinebreak c = false) s -> s <> [] ->
  splitlines s = [s].
Proof.
  intros Hs Hne. unfold splitlines. rewrite splitlines_from_single by done.
  simpl. by destruct s.
Qed.

Lemma splitlines_nil_iff (s : pystr) : splitlines s = [] <-> s = [].
Proof.
  split; [| by intros ->].
  unfold splitlines. destruct s as [|c rest]; [done |]. simpl.
  destruct (islinebreak c); [done |].
  assert (H : forall (t cur : pystr), cur <> [] -> splitlines_from cur t <> []).
  { induction t as [|a t IH]; intros cur Hcur; simpl.
    - by destruct cur.
    - destruct (islinebreak a); [done |]. by apply IH. }
  intros Hnil. by apply (H rest [c]) in Hnil.
Qed.

(** ** [join] *)

Lemma join_cons (sep p : pystr) (rest : list pystr) :
  rest <> [] -> join sep (p :: rest) = p ++ sep ++ join sep rest.
Proof. by destruct rest. Qed.

Lemma join_snoc (sep x : pystr) (l : list pystr) :
  l <> [] -> join sep (l ++ [x]) = join sep l ++ sep ++ x.
Proof.
  induction l as [|p l IH]; [done |]. intros _.
  destruct l as [|q l]; [done |].
  change ((p :: q :: l) ++ [x]) with (p :: ((q :: l) ++ [x])).
  rewrite join_cons by done. rewrite IH by done.
  rewrite (join_cons sep p (q :: l)) by done. by rewrite <- !app_assoc.
Qed.

Lemma join_nil_inv (sep : pystr) (l : list pystr) :
  sep <> [] -> join sep l = [] -> l = [] \/ l = [[]].
Proof.
  intros Hsep. destruct l as [|p [|q l]]; simpl; auto.
  - intros ->. auto.
  - intros H. apply app_eq_nil in H as [_ H]. apply app_eq_nil in H as [H _].
    done.
Qed.

Lemma nonws_join (sep : pystr) (l : list pystr) :
  blank sep -> nonws (join sep l) = nonws (concat l).
Proof.
  intros Hsep. induction l as [|p l IH]; [done |].
  destruct l as [|q l]; [simpl; by rewrite app_nil_r |].
  rewrite join_cons by done. change (concat (p :: q :: l)) with (p ++ concat (q :: l)).
  rewrite !nonws_app, IH, (nonws_blank sep) by done. done.
Qed.

(** ** The chunking loop *)

Lemma chunk_step_unfold (cs : list pystr) (cur line : pystr) :
  chunk_step (cs, cur) line =
    if (max_chunk_length <? length cur + length line + 1)%nat then
      ((if nonempty cur then cs ++ [strip cur] else cs), line)
    else (cs, cur ++ [SP] ++ line).
Proof. reflexivity. Qed.

(** A property kept by every turn of the loop holds when the loop ends. *)
Lemma chunk_loop_invariant (Q : list pystr * pystr -> Prop)
    (lines : list pystr) (st : list pystr * pystr) :
  Q st ->
  (forall st' line, line ∈ lines -> Q st' -> Q (chunk_step st' line)) ->
  Q (fold_left chunk_step lines st).
Proof.
  revert st. induction lines as [|l lines IH]; intros st Hst Hstep; [done |].
  simpl. apply IH.
  - apply Hstep; [left | done].
  - intros st' line Hin. apply Hstep. by right.
Qed.

Lemma chunk_lines_bounded (lines : list pystr) :
  Forall (bounded_or_single_line lines) (chunk_lines lines).
Proof.
  unfold chunk_lines.
  pose (Q := fun st : list pystr * pystr =>
    Forall (bounded_or_single_line lines) st.1 /\
    ((length st.2 <= max_chunk_length)%nat \/
     (st.2 ∈ lines /\ (max_chunk_length < length st.2)%nat))).
  assert (Hflush : forall cs cur, Q (cs, cur) ->
            Forall (bounded_or_single_line lines) (cs ++ [strip cur])).
  { intros cs cur [Hcs Hcur]. simpl in *. apply Forall_app. split; [done |].
    apply Forall_singleton. destruct Hcur as [Hle | [Hin Hgt]].
    - left. pose proof (strip_length cur). lia.
    - right. by exists cur. }
  assert (HQ : Q (fold_left chunk_step lines ([], []))).
  { apply chunk_loop_invariant.
    - split; simpl; [constructor | left; unfold max_chunk_length; lia].
    - intros [cs cur] line Hin HQ. rewrite chunk_step_unfold.
      destruct (Nat.ltb_spec max_chunk_length (length cur + length line + 1))
        as [Hlt | Hge].
      + split; simpl.
        * destruct (nonempty cur); [by apply Hflush | apply HQ].
        * destruct (Nat.le_gt_cases (length line) max_chunk_length); auto.
      + split; simpl; [apply HQ |]. left. rewrite !length_app. simpl. lia. }
  destruct (fold_left chunk_step lines ([], [])) as [cs cur]. simpl.
  destruct (nonempty cur); [by apply Hflush | apply HQ].
Qed.

(** Every chunk is a result of [strip]. *)
Lemma chunk_lines_trimmed (lines : list pystr) :
  Forall trimmed (chunk_lines lines).
Proof.
  unfold chunk_lines.
  assert (HQ : Forall trimmed (fold_left chunk_step lines ([], [])).1).
  { apply (chunk_loop_invariant (fun st => Forall trimmed st.1)).
    - constructor.
    - intros [cs cur] line _ Hcs. rewrite chunk_step_unfold.
      destruct (_ <? _)%nat; simpl; [| done].
      destruct (nonempty cur); [| done].
      apply Forall_app. split; [done |]. apply Forall_singleton, strip_trimmed. }
  destruct (fold_left chunk_step lines ([], [])) as [cs cur]. simpl in *.
  destruct (nonempty cur); [| done].
  apply Forall_app. split; [done |]. apply Forall_singleton, strip_trimmed.
Qed.

(** The loop keeps every character that is not whitespace, in order. *)
Lemma chunk_step_nonws (cs : list pystr) (cur l : pystr) :
  nonws (concat (chunk_step (cs, cur) l).1 ++ (chunk_step (cs, cur) l).2) =
    nonws (concat cs ++ cur) ++ nonws l.
Proof.
  rewrite chunk_step_unfold. destruct (_ <? _)%nat; simpl.
  - destruct (nonempty cur) eqn:Hcur; simpl.
    + rewrite concat_app. simpl. rewrite !nonws_app, nonws_strip.
      by rewrite app_nil_r.
    + apply nonempty_false in Hcur as ->. by rewrite !nonws_app, app_nil_r.
  - rewrite !nonws_app. rewrite (nonws_cons_space SP) by done.
    by rewrite app_assoc.
Qed.

Lemma chunk_loop_nonws (lines : list pystr) :
  forall st : list pystr * pystr,
    nonws (concat (fold_left chunk_step lines st).1 ++
           (fold_left chunk_step lines st).2) =
      nonws (concat st.1 ++ st.2) ++ nonws (concat lines).
Proof.
  induction lines as [|l lines IH]; intros [cs cur].
  - simpl. by rewrite app_nil_r.
  - change (fold_left chunk_step (l :: lines) (cs, cur))
      with (fold_left chunk_step lines (chunk_step (cs, cur) l)).
    rewrite IH, chunk_step_nonws, concat_cons, (nonws_app l).
    by rewrite app_assoc.
Qed.

Lemma flush_nonws (st : list pystr * pystr) :
  nonws (concat (flush st)) = nonws (concat st.1 ++ st.2).
Proof.
  destruct st as [cs cur]. simpl. destruct (nonempty cur) eqn:Hcur.
  - rewrite concat_app. simpl. by rewrite !nonws_app, nonws_strip, app_nil_r.
  - apply nonempty_false in Hcur as ->. by rewrite app_nil_r.
Qed.

Lemma chunks_nonws (text : pystr) :
  nonws (concat (chunks text)) = nonws text.
Proof.
  unfold chunks, chunk_lines. rewrite flush_nonws.
  rewrite (chunk_loop_nonws (splitlines text) ([], [])). simpl.
  apply splitlines_nonws.
Qed.

(** ** The cut of the lines into chunks *)

Lemma chunking_app (l1 l2 c1 c2 : list pystr) :
  chunking l1 c1 -> chunking l2 c2 -> chunking (l1 ++ l2) (c1 ++ c2).
Proof.
  intros H1 H2. induction H1 as [|run lines cs Hrun _ IH|lines cs _ IH].
  - done.
  - rewrite <- app_assoc. simpl. by constructor.
  - simpl. by constructor.
Qed.

Lemma chunking_single_run (run : list pystr) :
  run <> [] -> chunking run [strip (join [SP] run)].
Proof.
  intros Hrun. rewrite <- (app_nil_r run) at 1.
  apply chunking_run; [done | constructor].
Qed.

Lemma buffer_of_strip (run : list pystr) (cur : pystr) :
  buffer_of run cur -> strip cur = strip (join [SP] run).
Proof.
  intros [[-> ->] | [_ [-> | ->]]]; [done | done |].
  by apply strip_cons_space.
Qed.

Lemma buffer_of_nonempty (run : list pystr) (cur : pystr) :
  buffer_of run cur -> cur <> [] -> run <> [].
Proof. intros [[_ ->] | [Hrun _]]; done. Qed.

Lemma buffer_of_empty (run : list pystr) :
  buffer_of run [] -> chunking run [].
Proof.
  intros [[-> _] | [Hrun [Hj | Hj]]]; [constructor | | done].
  symmetry in Hj. apply join_nil_inv in Hj as [-> | ->]; [done | | done].
  apply chunking_skip. constructor.
Qed.

Lemma buffer_of_push (run : list pystr) (cur line : pystr) :
  buffer_of run cur -> buffer_of (run ++ [line]) (cur ++ [SP] ++ line).
Proof.
  intros Hbuf. right. split; [by destruct run |].
  destruct Hbuf as [[-> ->] | [Hrun [-> | ->]]].
  - by right.
  - left. by rewrite join_snoc.
  - right. by rewrite join_snoc.
Qed.

Lemma cut_flush (done : list pystr) (cs : list pystr) (cur : pystr) :
  cut_so_far done (cs, cur) ->
  chunking done (if nonempty cur then cs ++ [strip cur] else cs).
Proof.
  intros (pre & run & -> & Hpre & Hbuf). simpl in *.
  destruct (nonempty cur) eqn:Hcur.
  - apply chunking_app; [done |]. rewrite (buffer_of_strip run) by done.
    apply chunking_single_run, (buffer_of_nonempty run cur); [done |].
    by apply nonempty_true.
  - apply nonempty_false in Hcur as ->.
    rewrite <- (app_nil_r cs). apply chunking_app; [done |].
    by apply buffer_of_empty.
Qed.

Lemma cut_step (done : list pystr) (st : list pystr * pystr) (line : pystr) :
  cut_so_far done st -> cut_so_far (done ++ [line]) (chunk_step st line).
Proof.
  destruct st as [cs cur]. intros Hcut. rewrite chunk_step_unfold.
  destruct (_ <? _)%nat.
  - exists done, [line]. split; [done |]. split.
    + by apply cut_flush.
    + right. split; [done | by left].
  - destruct Hcut as (pre & run & -> & Hpre & Hbuf).
    exists pre, (run ++ [line]). split; [by rewrite app_assoc |].
    split; [done | by apply buffer_of_push].
Qed.

Lemma cut_loop (lines : list pystr) :
  forall done st, cut_so_far done st ->
    cut_so_far (done ++ lines) (fold_left chunk_step lines st).
Proof.
  induction lines as [|l lines IH]; intros done st Hcut; simpl.
  - by rewrite app_nil_r.
  - change (l :: lines) with ([l] ++ lines). rewrite app_assoc.
    by apply IH, cut_step.
Qed.

Lemma chunk_lines_chunking (lines : list pystr) :
  chunking lines (chunk_lines lines).
Proof.
  unfold chunk_lines.
  assert (Hcut : cut_so_far lines (fold_left chunk_step lines ([], []))).
  { apply (cut_loop lines [] ([], [])). exists [], [].
    split; [done |]. split; [constructor | by left]. }
  destruct (fold_left chunk_step lines ([], [])) as [cs cur].
  by apply cut_flush.
Qed.

(** The chunk sequence is empty exactly for the empty text. *)
Lemma chunk_lines_nil_iff (lines : list pystr) :
  chunk_lines lines = [] <-> lines = [].
Proof.
  split; [| by intros ->].
  destruct lines as [|l lines]; [done |]. intros Hnil. exfalso.
  unfold chunk_lines in Hnil.
  pose (Q := fun st : list pystr * pystr => st.1 <> [] \/ st.2 <> []).
  assert (HQ : Q (fold_left chunk_step lines (chunk_step ([], []) l))).
  { apply chunk_loop_invariant.
    - right. rewrite chunk_step_unfold.
      destruct (Nat.ltb_spec max_chunk_length (length (@nil N) + length l + 1))
        as [Hlt | Hge]; simpl in *.
      + intros ->. simpl in Hlt. unfold max_chunk_length in Hlt. lia.
      + done.
    - intros [cs cur] line _ HQ. rewrite chunk_step_unfold.
      destruct (max_chunk_length <? length cur + length line + 1)%nat.
      + left. simpl. destruct HQ as [Hcs | Hcur]; simpl in *.
        * destruct (nonempty cur); [by destruct cs | done].
        * apply nonempty_true in Hcur. rewrite Hcur. by destruct cs.
      + destruct HQ as [Hcs | Hcur]; [by left | right].
        simpl in *. by destruct cur. }
  change (fold_left chunk_step (l :: lines) ([], []))
    with (fold_left chunk_step lines (chunk_step ([], []) l)) in Hnil.
  destruct (fold_left chunk_step lines (chunk_step ([], []) l)) as [cs cur].
  unfold flush in Hnil. destruct HQ as [Hcs | Hcur]; simpl in *.
  - destruct (nonempty cur); [| done]. by apply app_eq_nil in Hnil as [? _].
  - apply nonempty_true in Hcur. rewrite Hcur in Hnil.
    by apply app_eq_nil in Hnil as [_ ?].
Qed.

Lemma chunks_nil_iff (text : pystr) : chunks text = [] <-> text = [].
Proof. unfold chunks. by rewrite chunk_lines_nil_iff, splitlines_nil_iff. Qed.

Lemma chunks_trimmed (text : pystr) : Forall trimmed (chunks text).
Proof. apply chunk_lines_trimmed. Qed.

(** ** Over-long lines *)

(** The chunks already made are never touched again: the loop only appends
    to them. *)
Lemma chunk_step_prefix (cs0 cs : list pystr) (cur line : pystr) :
  chunk_step (cs0 ++ cs, cur) line =
    (cs0 ++ (chunk_step (cs, cur) line).1, (chunk_step (cs, cur) line).2).
Proof.
  rewrite !chunk_step_unfold.
  destruct (max_chunk_length <? length cur + length line + 1)%nat; simpl;
    [| done].
  destruct (nonempty cur); [| done]. by rewrite app_assoc.
Qed.

Lemma chunk_loop_prefix (lines : list pystr) :
  forall (cs0 cs : list pystr) (cur : pystr),
    fold_left chunk_step lines (cs0 ++ cs, cur) =
      (cs0 ++ (fold_left chunk_step lines (cs, cur)).1,
       (fold_left chunk_step lines (cs, cur)).2).
Proof.
  induction lines as [|l lines IH]; intros cs0 cs cur; [done |].
  change (fold_left chunk_step (l :: lines) (cs0 ++ cs, cur))
    with (fold_left chunk_step lines (chunk_step (cs0 ++ cs, cur) l)).
  change (fold_left chunk_step (l :: lines) (cs, cur))
    with (fold_left chunk_step lines (chunk_step (cs, cur) l)).
  rewrite chunk_step_prefix. destruct (chunk_step (cs, cur) l) as [cs' cur'].
  apply IH.
Qed.

Lemma flush_prefix (cs0 cs : list pystr) (cur : pystr) :
  flush (cs0 ++ cs, cur) = cs0 ++ flush (cs, cur).
Proof. simpl. destruct (nonempty cur); [| done]. by rewrite app_assoc. Qed.

Lemma chunk_loop_flush_prefix (lines cs0 cs : list pystr) (cur : pystr) :
  flush (fold_left chunk_step lines (cs0 ++ cs, cur)) =
    cs0 ++ flush (fold_left chunk_step lines (cs, cur)).
Proof.
  rewrite chunk_loop_prefix.
  destruct (fold_left chunk_step lines (cs, cur)) as [cs' cur'].
  apply flush_prefix.
Qed.

(** A line of more than 450 characters is a chunk of its own: the chunks
    before it are those of the lines before it, and the chunks after it are
    a cut of the lines after it. *)
Lemma long_line_own_chunk (pre post : list pystr) (line : pystr) :
  (max_chunk_length < length line)%nat ->
  exists rest,
    chunk_lines (pre ++ line :: post) = chunk_lines pre ++ strip line :: rest /\
    chunking post rest.
Proof.
  intros Hlong. unfold chunk_lines. rewrite fold_left_app.
  change (fold_left chunk_step (line :: post) ?st)
    with (fold_left chunk_step post (chunk_step st line)).
  destruct (fold_left chunk_step pre ([], [])) as [cs cur] eqn:Hpre.
  rewrite chunk_step_unfold.
  destruct (Nat.ltb_spec max_chunk_length (length cur + length line + 1))
    as [_ | Hge]; [| lia].
  change (if nonempty cur then cs ++ [strip cur] else cs)
    with (flush (cs, cur)).
  generalize (flush (cs, cur)). intros cs0.
  assert (Hne : nonempty line = true).
  { destruct line; [simpl in Hlong; lia | done]. }
  replace (cs0, line) with (cs0 ++ [], line) by (by rewrite app_nil_r).
  rewrite chunk_loop_flush_prefix.
  destruct post as [|l post].
  - exists []. simpl. rewrite Hne. split; [done | constructor].
  - change (fold_left chunk_step (l :: post) ([], line))
      with (fold_left chunk_step post (chunk_step ([], line) l)).
    rewrite chunk_step_unfold.
    destruct (Nat.ltb_spec max_chunk_length (length line + length l + 1))
      as [_ | Hge]; [| lia].
    rewrite Hne. change ([] ++ [strip line]) with ([strip line] ++ []).
    rewrite chunk_loop_flush_prefix.
    exists (flush (fold_left chunk_step post ([], l))). split; [done |].
    assert (Hcut : cut_so_far ([l] ++ post)
                     (fold_left chunk_step post ([], l))).
    { apply cut_loop. exists [], [l]. split; [done |].
      split; [constructor |]. right. split; [done | by left]. }
    destruct (fold_left chunk_step post ([], l)) as [cs' cur'].
    by apply cut_flush.
Qed.

(** ** The backend call and the guard *)

Lemma translation_texts_spec (results : list (gmap pystr pystr))
    (outs : list pystr) :
  translation_texts results = Some outs <->
  Forall2 (fun r out => r !! translation_text = Some out) results outs.
Proof. apply mapM_Some. Qed.

Lemma result_of_lookup (t : pystr) : result_of t !! translation_text = Some t.
Proof. apply lookup_singleton_eq. Qed.

Lemma translation_texts_result_of (ts : list pystr) :
  translation_texts (result_of <$> ts) = Some ts.
Proof.
  apply translation_texts_spec, Forall2_fmap_l, Forall_Forall2_diag.
  apply Forall_forall. intros t _. apply result_of_lookup.
Qed.

Lemma translate_batch_backend_of (f : pystr -> pystr) (cs : list pystr) :
  translate_batch (backend_of f) cs = f <$> cs.
Proof.
  unfold translate_batch, backend_of. by rewrite translation_texts_result_of.
Qed.

Lemma translate_batch_returned (translator : list pystr -> nat -> outcome)
    (cs : list pystr) (results : list (gmap pystr pystr)) (outs : list pystr) :
  translator cs 512%nat = Returned results ->
  Forall2 (fun r out => r !! translation_text = Some out) results outs ->
  translate_batch translator cs = outs.
Proof.
  intros Hret Houts. apply translation_texts_spec in Houts.
  unfold translate_batch. by rewrite Hret, Houts.
Qed.

Lemma not_blank_strip (s : pystr) : ~ blank s -> nonempty (strip s) = true.
Proof.
  intros Hs. apply nonempty_true. intros Hnil. by apply Hs, strip_blank.
Qed.

Lemma not_blank_nonempty (s : pystr) : ~ blank s -> nonempty s = true.
Proof.
  intros Hs. apply nonempty_true. intros ->. apply Hs. constructor.
Qed.

Lemma blank_strip (s : pystr) : blank s -> nonempty (strip s) = false.
Proof. intros Hs. apply strip_blank in Hs. by rewrite Hs. Qed.

Lemma translate_text_skip (translator : list pystr -> nat -> outcome)
    (x : pyvalue) :
  truthy x = false \/ blank (py_str x) -> translate_text translator x = (x, []).
Proof.
  intros [Hx | Hx]; unfold translate_text.
  - by rewrite Hx.
  - rewrite (blank_strip _ Hx). by rewrite orb_true_r.
Qed.

Lemma translate_text_run (translator : list pystr -> nat -> outcome)
    (x : pyvalue) :
  truthy x = true -> ~ blank (py_str x) ->
  translate_text translator x =
    (PyStr (reassemble (translate_batch translator (chunks (py_str x)))),
     [Call (chunks (py_str x)) 512]).
Proof.
  intros Hx Hs. unfold translate_text.
  by rewrite Hx, (not_blank_strip _ Hs).
Qed.

Lemma translate_text_str (translator : list pystr -> nat -> outcome)
    (s : pystr) :
  ~ blank s ->
  translate_text translator (PyStr s) =
    (PyStr (reassemble (translate_batch translator (chunks s))),
     [Call (chunks s) 512]).
Proof.
  intros Hs. apply (translate_text_run translator (PyStr s)); [| done].
  by apply not_blank_nonempty.
Qed.

Lemma map_calls_spec {A B : Type} (f : A -> B * list call) (l : list A) :
  map_calls f l = ((fun x => (f x).1) <$> l, concat ((fun x => (f x).2) <$> l)).
Proof.
  induction l as [|x l IH]; [done |]. simpl. rewrite IH.
  by destruct (f x).
Qed.

(** ** The sample inputs *)

Lemma two_chunk_text_chunks :
  chunks two_chunk_text = [replicate 450 97; lit "Hola"].
Proof. vm_compute. reflexivity. Qed.

Lemma two_chunk_text_not_blank : ~ blank two_chunk_text.
Proof. intros H. apply strip_blank in H. vm_compute in H. discriminate. Qed.

(** * The claims *)

(** C1: when the backend returns normally, one well-formed result per chunk,
    the translated segments are the results' texts in the order of the
    results: as many as there are chunks, the i-th being the text of the
    i-th result, and the document is these texts joined by a blank line.
    With the stub backend, the chunks "Hola", "mundo" are reassembled to
    "Hello", a blank line, "world". *)
Theorem translated_segments_aligned
    (translator : list pystr -> nat -> outcome) (text : pystr)
    (results : list (gmap pystr pystr)) (outs : list pystr) :
  translator (chunks text) 512%nat = Returned results ->
  length results = length (chunks text) ->
  Forall2 (fun r out => r !! translation_text = Some out) results outs ->
  translate_batch translator (chunks text) = outs /\
  length (translate_batch translator (chunks text)) = length (chunks text) /\
  (forall i, (i < length (chunks text))%nat ->
     exists r out, results !! i = Some r /\
                   r !! translation_text = Some out /\
                   translate_batch translator (chunks text) !! i = Some out) /\
  (~ blank text ->
     translate_text translator (PyStr text) =
       (PyStr (join [LF; LF] outs), [Call (chunks text) 512])) /\
  reassemble (translate_batch (backend_of stub) [lit "Hola"; lit "mundo"]) =
    lit "Hello" ++ [LF; LF] ++ lit "world".
Proof.
  intros Hret Hlen Houts.
  pose proof (translate_batch_returned _ _ _ _ Hret Houts) as Hbatch.
  pose proof (Forall2_length _ _ _ Houts) as Hlen'.
  split; [| split; [| split; [| split]]].
  - done.
  - rewrite Hbatch. congruence.
  - intros i Hi. rewrite Hbatch.
    destruct (lookup_lt_is_Some_2 results i) as [r Hr]; [lia |].
    destruct (Forall2_lookup_l _ _ _ _ _ Houts Hr) as (out & Hout & Hro).
    by exists r, out.
  - intros Hs. rewrite translate_text_str by done. by rewrite Hbatch.
  - by rewrite translate_batch_backend_of.
Qed.

Lemma translated_segments_aligned_witness :
  translate_batch (backend_of stub) (chunks two_chunk_text)
    = [replicate 450 97; lit "Hello"] /\
  translate_text (backend_of stub) (PyStr two_chunk_text)
    = (PyStr (join [LF; LF] [replicate 450 97; lit "Hello"]),
       [Call (chunks two_chunk_text) 512]).
Proof.
  destruct (translated_segments_aligned (backend_of stub) two_chunk_text
              (result_of <$> [replicate 450 97; lit "Hello"])
              [replicate 450 97; lit "Hello"])
    as (Hbatch & _ & _ & Htext & _).
  - rewrite two_chunk_text_chunks. reflexivity.
  - rewrite two_chunk_text_chunks. reflexivity.
  - repeat constructor; apply result_of_lookup.
  - split; [exact Hbatch | exact (Htext two_chunk_text_not_blank)].
Defined.

(** C2: a chunk is at most 450 characters long, unless it is one source
    line of more than 450 characters, trimmed. Every source line of more
    than 450 characters becomes such a chunk of its own, whole: only
    whitespace at its two ends is left out, the chunks before it are those
    of the lines before it and the chunks after it are a cut of the lines
    after it. The chunks are a cut of all the lines, in order. *)
Theorem chunks_bounded (text : pystr) :
  (forall chunk, chunk ∈ chunks text ->
     (length chunk <= 450)%nat \/
     exists line, line ∈ splitlines text /\ (450 < length line)%nat /\
                  chunk = strip line) /\
  (forall pre line post,
     splitlines text = pre ++ line :: post -> (450 < length line)%nat ->
     exists rest p q,
       chunks text = chunk_lines pre ++ strip line :: rest /\
       chunking post rest /\
       line = p ++ strip line ++ q /\ blank p /\ blank q) /\
  chunking (splitlines text) (chunks text).
Proof.
  split; [| split].
  - intros chunk Hin.
    pose proof (chunk_lines_bounded (splitlines text)) as Hall.
    rewrite Forall_forall in Hall. exact (Hall chunk Hin).
  - intros pre line post Hlines Hlong.
    destruct (long_line_own_chunk pre post line Hlong) as (rest & Hcs & Hcut).
    destruct (strip_split line) as (p & q & Hline & Hp & Hq).
    exists rest, p, q. unfold chunks. rewrite Hlines. done.
  - apply chunk_lines_chunking.
Qed.

Lemma chunks_bounded_witness :
  ((length (lit "Hola") <= 450)%nat \/
   exists line, line ∈ splitlines long_line_text /\ (450 < length line)%nat /\
                lit "Hola" = strip line) /\
  exists rest p q,
    chunks long_line_text =
      chunk_lines [lit "Hola"] ++ strip long_line :: rest /\
    chunking [lit "mundo"] rest /\
    long_line = p ++ strip long_line ++ q /\ blank p /\ blank q.
Proof.
  destruct (chunks_bounded long_line_text) as (Hbound & Hlong & _).
  split.
  - apply (Hbound (lit "Hola")). vm_compute. left.
  - apply (Hlong [lit "Hola"] long_line [lit "mundo"]).
    + vm_compute. reflexivity.
    + vm_compute. lia.
Defined.

(** C3: when the batch call raises, [translate_text] returns normally: the
    translations are the one error text, whatever the number of chunks, and
    the value returned is that text alone. *)
Theorem backend_failure_single_error
    (translator : list pystr -> nat -> outcome) (text e : pystr) :
  ~ blank text ->
  translator (chunks text) 512%nat = Raised e ->
  translate_batch translator (chunks text) = [error_text e] /\
  length (translate_batch translator (chunks text)) = 1%nat /\
  translate_text translator (PyStr text) =
    (PyStr (lit "[Translation error: " ++ e ++ lit "]"),
     [Call (chunks text) 512]).
Proof.
  intros Hs Hraise.
  assert (Hbatch : translate_batch translator (chunks text) = [error_text e]).
  { unfold translate_batch. by rewrite Hraise. }
  split; [done |]. split; [by rewrite Hbatch |].
  rewrite translate_text_str by done. by rewrite Hbatch.
Qed.

Lemma backend_failure_single_error_witness :
  length (chunks two_chunk_text) = 2%nat /\
  translate_batch (failing_backend (lit "timeout")) (chunks two_chunk_text) =
    [lit "[Translation error: timeout]"] /\
  translate_text (failing_backend (lit "timeout")) (PyStr two_chunk_text) =
    (PyStr (lit "[Translation error: timeout]"),
     [Call (chunks two_chunk_text) 512]).
Proof.
  split; [by rewrite two_chunk_text_chunks |].
  destruct (backend_failure_single_error (failing_backend (lit "timeout"))
              two_chunk_text (lit "timeout") two_chunk_text_not_blank eq_refl)
    as (Hbatch & _ & Htext).
  split; [exact Hbatch | exact Htext].
Defined.

(** C4, at the input that breaks it: an empty first line followed by a line
    of 450 characters. The text is not blank, the buffer holds one space
    when the long line arrives, the guard [if current_chunk] lets it
    through, and [strip] makes it the empty chunk, which is sent to the
    backend. *)
Theorem empty_chunk_after_blank_line :
  ~ blank blank_then_long_text /\
  chunks blank_then_long_text = [[]; replicate 450 120] /\
  (translate_text identity_backend (PyStr blank_then_long_text)).2 =
    [Call [[]; replicate 450 120] 512].
Proof.
  assert (Hcs : chunks blank_then_long_text = [[]; replicate 450 120]).
  { vm_compute. reflexivity. }
  assert (Hnb : ~ blank blank_then_long_text).
  { intros H. apply strip_blank in H. vm_compute in H. discriminate. }
  split; [done |]. split; [done |].
  rewrite translate_text_str by done. simpl. by rewrite Hcs.
Qed.

(** C5: with the identity backend the output has the non-whitespace
    content of the input; for a text that is not blank it is the chunks
    joined by blank lines, the chunks being a cut of the source lines into
    runs joined by single spaces. *)
Theorem identity_backend_content (text : pystr) :
  exists out,
    (translate_text identity_backend (PyStr text)).1 = PyStr out /\
    nonws out = nonws text /\
    (~ blank text ->
       out = join [LF; LF] (chunks text) /\
       chunking (splitlines text) (chunks text)).
Proof.
  destruct (decide (blank text)) as [Hb | Hnb].
  - exists text. rewrite translate_text_skip by by right. done.
  - exists (join [LF; LF] (chunks text)).
    rewrite translate_text_str by done. unfold identity_backend.
    rewrite translate_batch_backend_of, list_fmap_id.
    split; [done |]. split.
    + rewrite nonws_join by by repeat constructor. apply chunks_nonws.
    + intros _. split; [done | apply chunk_lines_chunking].
Qed.

Lemma identity_backend_content_witness :
  exists out,
    (translate_text identity_backend (PyStr two_chunk_text)).1 = PyStr out /\
    nonws out = nonws two_chunk_text /\
    out = join [LF; LF] (chunks two_chunk_text).
Proof.
  destruct (identity_backend_content two_chunk_text) as (out & H1 & H2 & H3).
  exists out. split; [exact H1 |]. split; [exact H2 |].
  exact (proj1 (H3 two_chunk_text_not_blank)).
Defined.

(** C6: a text that is a single line (it holds no character that
    [str.splitlines] takes as a line boundary) of more than 450 characters
    gives exactly one chunk, the text trimmed. *)
Theorem single_long_line_one_chunk (text : pystr) :
  Forall (fun c => islinebreak c = false) text ->
  (450 < length text)%nat ->
  chunks text = [strip text].
Proof.
  intros Hline Hlen.
  assert (Hne : text <> []) by (intros ->; simpl in Hlen; lia).
  unfold chunks. rewrite splitlines_single by done.
  unfold chunk_lines.
  change (fold_left chunk_step [text] ([], [])) with (chunk_step ([], []) text).
  rewrite chunk_step_unfold.
  destruct (Nat.ltb_spec max_chunk_length (length (@nil N) + length text + 1))
    as [_ | Hge]; [| unfold max_chunk_length in Hge; simpl in Hge; lia].
  simpl. apply nonempty_true in Hne. by rewrite Hne.
Qed.

Lemma single_long_line_one_chunk_witness :
  chunks long_line = [strip long_line].
Proof.
  apply (single_long_line_one_chunk long_line).
  - apply Forall_replicate. reflexivity.
  - vm_compute. lia.
Defined.

(** C7: an empty or whitespace-only string is returned as it is, and the
    backend is not invoked. *)
Theorem blank_input_unchanged
    (translator : list pystr -> nat -> outcome) (text : pystr) :
  blank text -> translate_text translator (PyStr text) = (PyStr text, []).
Proof. intros Hb. apply translate_text_skip. by right. Qed.

Lemma blank_input_unchanged_witness :
  translate_text identity_backend (PyStr [SP; LF; 9]) =
    (PyStr [SP; LF; 9], []).
Proof.
  apply (blank_input_unchanged identity_backend [SP; LF; 9]).
  repeat constructor.
Defined.

(** C8 as stated fails: for the input of one space the output is that
    space, not the empty string. *)
Lemma whitespace_output_not_empty :
  blank [SP] /\
  (translate_text identity_backend (PyStr [SP])).1 <> PyStr [].
Proof. split; [by repeat constructor | by vm_compute]. Qed.

(** C8, amended: for an empty or whitespace-only input the output is the
    input itself, so it holds no character that is not whitespace and is
    empty when the input is; the backend is not invoked. *)
Theorem blank_input_blank_output
    (translator : list pystr -> nat -> outcome) (text : pystr) :
  blank text ->
  exists out,
    translate_text translator (PyStr text) = (PyStr out, []) /\
    out = text /\ nonws out = [] /\ (text = [] -> out = []).
Proof.
  intros Hb. exists text. rewrite translate_text_skip by by right.
  split; [done |]. split; [done |]. split; [by apply nonws_blank | done].
Qed.

Lemma blank_input_blank_output_witness :
  exists out,
    translate_text identity_backend (PyStr [SP]) = (PyStr out, []) /\
    out = [SP] /\ nonws out = [] /\ ([SP] = [] -> out = []).
Proof.
  apply (blank_input_blank_output identity_backend [SP]).
  repeat constructor.
Defined.

(** C9: a cell that is a string with a character that is not whitespace is
    replaced by the result of the pipeline run on that cell alone, with one
    backend call; any other cell is left as it is, with no backend call; the
    translated frame has each cell's own result in the cell's place. The row
    "Hola", 42, "" becomes "Hello", 42, "" with the stub backend. *)
Theorem spreadsheet_cells (translator : list pystr -> nat -> outcome) :
  (forall s, ~ blank s ->
     translate_cell translator (PyStr s) =
       (PyStr (reassemble (translate_batch translator (chunks s))),
        [Call (chunks s) 512])) /\
  (forall x, (forall s, x = PyStr s -> blank s) ->
     translate_cell translator x = (x, [])) /\
  (forall df : list (list pyvalue),
     (df_translated translator df).1 =
       (fun col : list pyvalue =>
          (fun x : pyvalue => (translate_cell translator x).1) <$> col)
       <$> df /\
     (df_translated translator df).2 =
       concat ((fun col : list pyvalue =>
                  concat ((fun x : pyvalue => (translate_cell translator x).2)
                          <$> col))
               <$> df)) /\
  (df_translated (backend_of stub)
     [[PyStr (lit "Hola")]; [PyInt 42]; [PyStr []]]).1 =
    [[PyStr (lit "Hello")]; [PyInt 42]; [PyStr []]] /\
  (fun x : pyvalue => (translate_cell (backend_of stub) x).1)
     <$> [PyStr (lit "Hola"); PyInt 42; PyStr []] =
    [PyStr (lit "Hello"); PyInt 42; PyStr []].
Proof.
  split; [| split; [| split; [| split]]].
  - intros s Hs. unfold translate_cell. rewrite (not_blank_strip s Hs).
    by apply translate_text_str.
  - intros x Hx. destruct x as [| | |s|]; try done.
    unfold translate_cell. by rewrite (blank_strip s (Hx s eq_refl)).
  - intros df. unfold df_translated, applymap. rewrite map_calls_spec. simpl.
    split.
    + apply list_fmap_ext. intros _ col _. by rewrite map_calls_spec.
    + f_equal. apply list_fmap_ext. intros _ col _. by rewrite map_calls_spec.
  - by vm_compute.
  - by vm_compute.
Qed.

Lemma spreadsheet_cells_witness :
  translate_cell (backend_of stub) (PyStr (lit "Hola")) =
    (PyStr (lit "Hello"), [Call [lit "Hola"] 512]) /\
  translate_cell (backend_of stub) (PyStr [SP; SP]) = (PyStr [SP; SP], []) /\
  translate_cell (backend_of stub) (PyInt 42) = (PyInt 42, []).
Proof.
  destruct (spreadsheet_cells (backend_of stub)) as (Hrun & Hskip & _).
  split; [| split].
  - rewrite (Hrun (lit "Hola")); [by vm_compute |].
    intros H. apply strip_blank in H. vm_compute in H. discriminate.
  - apply (Hskip (PyStr [SP; SP])). intros s [= <-]. repeat constructor.
  - apply (Hskip (PyInt 42)). intros s [=].
Defined.

(** C10: a value that is falsy, or whose [str()] is blank, is returned
    itself, whatever its type, with no backend call; any other value is
    replaced by its [str()], which is then chunked, translated and
    reassembled. [None], [0] and [False] are returned as they are. *)
Theorem translate_text_any_value
    (translator : list pystr -> nat -> outcome) (x : pyvalue) :
  (truthy x = false \/ blank (py_str x) ->
     translate_text translator x = (x, [])) /\
  (truthy x = true -> ~ blank (py_str x) ->
     translate_text translator x =
       (PyStr (reassemble (translate_batch translator (chunks (py_str x)))),
        [Call (chunks (py_str x)) 512])) /\
  translate_text translator PyNone = (PyNone, []) /\
  translate_text translator (PyInt 0) = (PyInt 0, []) /\
  translate_text translator (PyBool false) = (PyBool false, []).
Proof.
  split; [apply translate_text_skip |].
  split; [apply translate_text_run |].
  split; [| split]; apply translate_text_skip; by left.
Qed.

Lemma translate_text_any_value_witness :
  translate_text identity_backend (PyOther true [SP]) = (PyOther true [SP], []) /\
  translate_text identity_backend (PyInt 42) =
    (PyStr (lit "42"), [Call [lit "42"] 512]).
Proof.
  split.
  - apply (translate_text_any_value identity_backend (PyOther true [SP])).
    right. repeat constructor.
  - destruct (translate_text_any_value identity_backend (PyInt 42))
      as (_ & Hrun & _).
    rewrite Hrun; [by vm_compute | reflexivity |].
    intros H. apply strip_blank in H. vm_compute in H. discriminate.
Defined.

(** * Further properties *)

(** ** [split] and the Word paragraphs *)

Lemma split_from_cons (cur : pystr) (c : N) (rest : pystr) :
  split_from cur (c :: rest) =
    match rest with
    | c' :: rest' =>
        if (c =? LF) && (c' =? LF) then reverse cur :: split_from [] rest'
        else split_from (c :: cur) rest
    | [] => split_from (c :: cur) rest
    end.
Proof. reflexivity. Qed.

Lemma split_from_not_nil (s cur : pystr) : split_from cur s <> [].
Proof.
  revert cur. induction s as [|c [|c' rest'] IH]; intros cur; simpl; try done.
  destruct ((c =? LF) && (c' =? LF)); [done | apply IH].
Qed.

Lemma join_split_from (n : nat) :
  forall (s cur : pystr), (length s <= n)%nat ->
    join [LF; LF] (split_from cur s) = reverse cur ++ s.
Proof.
  induction n as [|n IH]; intros [|c rest] cur Hlen; simpl in Hlen; try lia.
  - simpl. by rewrite app_nil_r.
  - simpl. by rewrite app_nil_r.
  - rewrite split_from_cons. destruct rest as [|c' rest'].
    + rewrite IH by (simpl; lia). by rewrite reverse_cons, <- app_assoc.
    + destruct ((c =? LF) && (c' =? LF)) eqn:Hsep.
      * apply andb_true_iff in Hsep as [Hc Hc'].
        apply N.eqb_eq in Hc, Hc'. subst c c'.
        rewrite join_cons by apply split_from_not_nil.
        rewrite IH by (simpl in Hlen; lia). done.
      * rewrite IH by lia. by rewrite reverse_cons, <- app_assoc.
Qed.

Lemma split_from_no_newline (t cur : pystr) :
  Forall (fun c => c <> LF) t -> split_from cur t = [reverse cur ++ t].
Proof.
  intros Ht. revert cur. induction Ht as [|c t Hc _ IH]; intros cur.
  - simpl. by rewrite app_nil_r.
  - rewrite split_from_cons.
    assert (Hsep : forall c', (c =? LF) && (c' =? LF) = false).
    { intros c'. apply andb_false_iff. left. by apply N.eqb_neq. }
    destruct t as [|c' t']; [| rewrite Hsep];
      rewrite IH; by rewrite reverse_cons, <- app_assoc.
Qed.

Lemma split_from_segment (t cur rest : pystr) :
  Forall (fun c => c <> LF) t ->
  split_from cur (t ++ [LF; LF] ++ rest) =
    (reverse cur ++ t) :: split_from [] rest.
Proof.
  intros Ht. revert cur. induction Ht as [|c t Hc _ IH]; intros cur.
  - simpl. by rewrite app_nil_r.
  - change ((c :: t) ++ [LF; LF] ++ rest) with (c :: (t ++ [LF; LF] ++ rest)).
    rewrite split_from_cons.
    assert (Hsep : forall c', (c =? LF) && (c' =? LF) = false).
    { intros c'. apply andb_false_iff. left. by apply N.eqb_neq. }
    destruct (t ++ [LF; LF] ++ rest) as [|c' rest'] eqn:Heq.
    + by destruct t.
    + rewrite Hsep, IH. by rewrite reverse_cons, <- app_assoc.
Qed.

Lemma split_join (ts : list pystr) :
  ts <> [] ->
  Forall (Forall (fun c => c <> LF)) ts ->
  split_paragraphs (join [LF; LF] ts) = ts.
Proof.
  intros Hne Hts. unfold split_paragraphs.
  induction Hts as [|t ts Ht Hts IH]; [done |].
  destruct ts as [|t' ts'].
  - simpl join. by rewrite split_from_no_newline.
  - rewrite join_cons by done. rewrite split_from_segment by done.
    by rewrite IH.
Qed.

Lemma forallb_xml_char (s : pystr) :
  forallb xml_char s = true <-> xml_text s.
Proof.
  unfold xml_text. induction s as [|c s IH]; simpl.
  - split; [constructor | done].
  - rewrite andb_true_iff, IH, Forall_cons. done.
Qed.

Lemma add_paragraphs_Some (paras doc : list pystr) :
  Forall xml_text paras -> add_paragraphs doc paras = Some (doc ++ paras).
Proof.
  intros Hparas. revert doc.
  induction Hparas as [|para paras Hpara _ IH]; intros doc; simpl.
  - by rewrite app_nil_r.
  - unfold add_paragraph. apply forallb_xml_char in Hpara. rewrite Hpara.
    rewrite IH. by rewrite <- app_assoc.
Qed.

Lemma add_paragraphs_inv (paras doc doc' : list pystr) :
  add_paragraphs doc paras = Some doc' ->
  doc' = doc ++ paras /\ Forall xml_text paras.
Proof.
  revert doc. induction paras as [|para paras IH]; intros doc; simpl.
  - intros [= <-]. by rewrite app_nil_r.
  - unfold add_paragraph. destruct (forallb xml_char para) eqn:Hpara; [| done].
    intros [-> Hparas]%IH. apply forallb_xml_char in Hpara.
    split; [by rewrite <- app_assoc | by constructor].
Qed.

Lemma xml_text_join (l : list pystr) :
  xml_text (join [LF; LF] l) <-> Forall xml_text l.
Proof.
  unfold xml_text. induction l as [|t l IH].
  - simpl. split; constructor.
  - destruct l as [|t' l'].
    + simpl. rewrite Forall_cons. split; [by split | by intros [? _]].
    + rewrite join_cons by done.
      rewrite !Forall_app, IH, (Forall_cons _ t). split.
      * by intros (? & _ & ?).
      * intros [? ?]. split; [done |]. split; [by repeat constructor | done].
Qed.

Lemma xml_text_split (s : pystr) :
  Forall xml_text (split_paragraphs s) <-> xml_text s.
Proof.
  rewrite <- xml_text_join. unfold split_paragraphs.
  by rewrite (join_split_from (length s)).
Qed.

Lemma word_paragraphs_Some (s : pystr) :
  xml_text s -> word_paragraphs s = Some (split_paragraphs s).
Proof.
  intros Hs. unfold word_paragraphs.
  by rewrite add_paragraphs_Some by by apply xml_text_split.
Qed.

Lemma word_paragraphs_inv (s : pystr) (paragraphs : list pystr) :
  word_paragraphs s = Some paragraphs ->
  paragraphs = split_paragraphs s /\ xml_text s.
Proof.
  unfold word_paragraphs. intros [-> Hall]%add_paragraphs_inv.
  split; [done | by apply xml_text_split].
Qed.

(** ** The text of a PDF *)

Lemma pdf_text_from (page_texts : list (option pystr)) (text : pystr) :
  fold_left pdf_page_step page_texts text =
    text ++ concat ((fun t : pystr => t ++ [LF]) <$> kept_pages page_texts).
Proof.
  revert text. induction page_texts as [|p ps IH]; intros text; simpl.
  - by rewrite app_nil_r.
  - rewrite IH. unfold kept_pages. destruct p as [t|]; simpl; [| done].
    destruct (nonempty t); simpl; [| done]. by rewrite <- !app_assoc.
Qed.

Lemma pdf_text_kept (page_texts : list (option pystr)) :
  pdf_text page_texts =
    concat ((fun t : pystr => t ++ [LF]) <$> kept_pages page_texts).
Proof. unfold pdf_text. by rewrite pdf_text_from. Qed.

Lemma kept_pages_elem (page_texts : list (option pystr)) (t : pystr) :
  t ∈ kept_pages page_texts <-> Some t ∈ page_texts /\ t <> [].
Proof.
  unfold kept_pages. rewrite list_elem_of_omap. split.
  - intros ([u|] & Hin & Hu); [| done].
    destruct (nonempty u) eqn:Hne; [| done].
    injection Hu as ->. split; [done | by apply nonempty_true].
  - intros [Hin Hne]. exists (Some t). split; [done |].
    apply nonempty_true in Hne. by rewrite Hne.
Qed.

(** A text is cut into lines at a newline: the lines before it and the
    lines after it do not depend on each other. *)
Lemma splitlines_from_newline (n : nat) :
  forall (a cur b : pystr), (length a <= n)%nat ->
    splitlines_from cur (a ++ LF :: b) =
      splitlines_from cur (a ++ [LF]) ++ splitlines_from [] b.
Proof.
  induction n as [|n IH]; intros [|c a] cur b Hlen; simpl in Hlen; try lia.
  - simpl. by destruct b.
  - simpl. by destruct b.
  - change ((c :: a) ++ LF :: b) with (c :: (a ++ LF :: b)).
    change ((c :: a) ++ [LF]) with (c :: (a ++ [LF])).
    rewrite !splitlines_from_cons. destruct (islinebreak c); [| apply IH; lia].
    simpl. f_equal. destruct a as [|c' a'].
    + simpl. destruct (c =? CR); simpl; [done |].
      apply (IH [] [] b). simpl. lia.
    + simpl. destruct ((c =? CR) && (c' =? LF)).
      * apply IH. simpl in Hlen. lia.
      * apply (IH (c' :: a') [] b). lia.
Qed.

Lemma splitlines_newline (a b : pystr) :
  splitlines (a ++ [LF] ++ b) = splitlines (a ++ [LF]) ++ splitlines b.
Proof. apply (splitlines_from_newline (length a)). done. Qed.

Lemma blank_concat (l : list pystr) : Forall blank l -> blank (concat l).
Proof.
  induction 1 as [|s l Hs _ IH]; simpl; [constructor |].
  apply blank_app. by split.
Qed.

Lemma nonws_concat (l : list pystr) :
  nonws (concat l) = concat (nonws <$> l).
Proof.
  induction l as [|s l IH]; [done |]. simpl. by rewrite nonws_app, IH.
Qed.

(** ** Texts that fit in one chunk *)

Lemma buffer_length_cons (l : pystr) (lines : list pystr) :
  buffer_length (l :: lines) = (S (length l) + buffer_length lines)%nat.
Proof. unfold buffer_length. simpl. by rewrite length_app. Qed.

(** The lines of a text, each with one more character, are not longer than
    the text with one more character: every line but the last has lost a
    line boundary. *)
Lemma splitlines_from_buffer_length (n : nat) :
  forall (s cur : pystr), (length s <= n)%nat ->
    (buffer_length (splitlines_from cur s) <= length cur + length s + 1)%nat.
Proof.
  assert (Hnil : forall cur : pystr,
            (buffer_length (splitlines_from cur []) <= length cur + 0 + 1)%nat).
  { intros [|a cur]; [cbn; lia |].
    cbn [splitlines_from]. rewrite buffer_length_cons, length_reverse.
    cbn. lia. }
  induction n as [|n IH]; intros [|c rest] cur Hlen; cbn [length] in *;
    try apply Hnil; try lia.
  rewrite splitlines_from_cons. destruct (islinebreak c).
  - rewrite buffer_length_cons, length_reverse.
    destruct rest as [|c' rest'].
    + pose proof (Hnil []) as H. cbn [length] in H. lia.
    + destruct ((c =? CR) && (c' =? LF)).
      * pose proof (IH rest' []) as H. cbn [length] in *.
        specialize (H ltac:(lia)). lia.
      * pose proof (IH (c' :: rest') []) as H. cbn [length] in *.
        specialize (H ltac:(lia)). lia.
  - pose proof (IH rest (c :: cur)) as H. cbn [length] in *.
    specialize (H ltac:(lia)). lia.
Qed.

Lemma splitlines_buffer_length (text : pystr) :
  (buffer_length (splitlines text) <= length text + 1)%nat.
Proof.
  pose proof (splitlines_from_buffer_length (length text) text [] (le_n _))
    as H.
  cbn [length] in H. unfold splitlines. lia.
Qed.

(** While the buffer has room the loop only appends to it. *)
Lemma chunk_loop_fits (lines : list pystr) :
  forall (cs : list pystr) (cur : pystr),
    (length cur + buffer_length lines <= max_chunk_length)%nat ->
    fold_left chunk_step lines (cs, cur) =
      (cs, cur ++ concat ((fun l : pystr => SP :: l) <$> lines)).
Proof.
  induction lines as [|l lines IH]; intros cs cur Hfit.
  - simpl. by rewrite app_nil_r.
  - rewrite buffer_length_cons in Hfit.
    change (fold_left chunk_step (l :: lines) (cs, cur))
      with (fold_left chunk_step lines (chunk_step (cs, cur) l)).
    rewrite chunk_step_unfold.
    destruct (Nat.ltb_spec max_chunk_length (length cur + length l + 1))
      as [Hlt | _]; [lia |].
    rewrite IH by (rewrite !length_app; simpl; lia).
    simpl. by rewrite <- !app_assoc.
Qed.

Lemma concat_spaces_join (lines : list pystr) :
  lines <> [] ->
  concat ((fun l : pystr => SP :: l) <$> lines) = SP :: join [SP] lines.
Proof.
  induction lines as [|l lines IH]; [done |]. intros _.
  destruct lines as [|l' lines'].
  - simpl. by rewrite app_nil_r.
  - rewrite fmap_cons, concat_cons, IH by done.
    by rewrite (join_cons [SP] l (l' :: lines')) by done.
Qed.

Lemma chunk_lines_fits (lines : list pystr) :
  lines <> [] ->
  (buffer_length lines <= max_chunk_length)%nat ->
  chunk_lines lines = [strip (join [SP] lines)].
Proof.
  intros Hne Hfit. unfold chunk_lines.
  rewrite chunk_loop_fits by (simpl; lia).
  simpl. rewrite concat_spaces_join by done. simpl.
  by rewrite strip_cons_space.
Qed.

(** ** Chunks and lines *)

Lemma chunking_length (lines cs : list pystr) :
  chunking lines cs -> (length cs <= length lines)%nat.
Proof.
  induction 1 as [|run lines cs Hrun _ IH|lines cs _ IH]; simpl.
  - done.
  - rewrite length_app. destruct run; [done |]. simpl. lia.
  - lia.
Qed.

Lemma join_not_blank (run : list pystr) :
  run <> [] -> Forall (fun l => ~ blank l) run -> ~ blank (join [SP] run).
Proof.
  intros Hne Hrun. destruct Hrun as [|l run Hl _]; [done |].
  destruct run as [|l' run']; [done |].
  rewrite join_cons by done. intros Hb. by apply blank_app in Hb as [? _].
Qed.

Lemma chunking_no_empty_chunk (lines cs : list pystr) :
  chunking lines cs ->
  Forall (fun l => ~ blank l) lines -> Forall (fun c => c <> []) cs.
Proof.
  induction 1 as [|run lines cs Hrun _ IH|lines cs _ IH]; intros Hlines.
  - constructor.
  - apply Forall_app in Hlines as [Hr Hl]. constructor; [| by apply IH].
    intros Hnil. apply strip_blank in Hnil. by apply (join_not_blank run).
  - apply Forall_cons in Hlines as [Hl _]. exfalso. apply Hl. constructor.
Qed.

(** ** What the backend is given and what is made of its answer *)

Lemma translation_texts_missing (results : list (gmap pystr pystr))
    (r : gmap pystr pystr) :
  r ∈ results -> r !! translation_text = None ->
  translation_texts results = None.
Proof.
  intros Hin Hr. apply mapM_None, Exists_exists. by exists r.
Qed.

Lemma chunks_not_nil (text : pystr) : ~ blank text -> chunks text <> [].
Proof.
  intros Hs Hnil. apply chunks_nil_iff in Hnil as ->. apply Hs. constructor.
Qed.

Lemma translate_text_cases (translator : list pystr -> nat -> outcome)
    (x : pyvalue) :
  translate_text translator x = (x, []) \/
  (~ blank (py_str x) /\
   translate_text translator x =
     (PyStr (reassemble (translate_batch translator (chunks (py_str x)))),
      [Call (chunks (py_str x)) 512])).
Proof.
  destruct (truthy x) eqn:Hx; [| left; apply translate_text_skip; by left].
  destruct (decide (blank (py_str x))) as [Hb | Hnb].
  - left. apply translate_text_skip. by right.
  - right. split; [done | by apply translate_text_run].
Qed.

Lemma identity_output (text : pystr) :
  ~ blank text ->
  translate_text identity_backend (PyStr text) =
    (PyStr (join [LF; LF] (chunks text)), [Call (chunks text) 512]).
Proof.
  intros Hnb. rewrite translate_text_str by done. unfold identity_backend.
  by rewrite translate_batch_backend_of, list_fmap_id.
Qed.

(** ** The sample inputs, continued *)

Lemma two_chunk_text_lines :
  splitlines two_chunk_text = [replicate 450 97; lit "Hola"].
Proof. vm_compute. reflexivity. Qed.

Lemma hola_mundo_text_not_blank : ~ blank hola_mundo_text.
Proof. intros H. apply strip_blank in H. vm_compute in H. discriminate. Qed.

Lemma not_blank_by_strip (s : pystr) : strip s <> [] -> ~ blank s.
Proof. intros Hs Hb. by apply Hs, strip_blank. Qed.

(** * Further properties of the code *)

(** X1: when a result of the backend lacks the key [translation_text], the
    [KeyError] is caught like a backend failure: the value returned is the
    one error text with the key's name, whatever the other results hold. *)
Theorem missing_key_single_error
    (translator : list pystr -> nat -> outcome) (text : pystr)
    (results : list (gmap pystr pystr)) (r : gmap pystr pystr) :
  ~ blank text ->
  translator (chunks text) 512%nat = Returned results ->
  r ∈ results -> r !! translation_text = None ->
  translate_text translator (PyStr text) =
    (PyStr (lit "[Translation error: 'translation_text']"),
     [Call (chunks text) 512]).
Proof.
  intros Hnb Hret Hin Hr. rewrite translate_text_str by done.
  unfold translate_batch.
  by rewrite Hret, (translation_texts_missing results r Hin Hr).
Qed.

Lemma missing_key_single_error_witness :
  translate_text keyless_backend (PyStr two_chunk_text) =
    (PyStr (lit "[Translation error: 'translation_text']"),
     [Call (chunks two_chunk_text) 512]).
Proof.
  apply (missing_key_single_error keyless_backend two_chunk_text
           [∅; ∅] ∅ two_chunk_text_not_blank).
  - unfold keyless_backend. by rewrite two_chunk_text_chunks.
  - left.
  - reflexivity.
Defined.

(** X2: the chunk sequence is empty exactly for the empty text. *)
Theorem chunks_empty_iff_text_empty (text : pystr) :
  chunks text = [] <-> text = [].
Proof. apply chunks_nil_iff. Qed.

(** X3: every chunk is whitespace-trimmed: neither its first nor its last
    character is whitespace. *)
Theorem every_chunk_trimmed (text chunk : pystr) :
  chunk ∈ chunks text -> trimmed chunk.
Proof.
  intros Hin. pose proof (chunks_trimmed text) as Hall.
  rewrite Forall_forall in Hall. by apply Hall.
Qed.

Lemma every_chunk_trimmed_witness : trimmed (lit "Hola").
Proof.
  apply (every_chunk_trimmed two_chunk_text (lit "Hola")).
  rewrite two_chunk_text_chunks. right. left.
Defined.

(** X4: when no line of the text is blank, no chunk is the empty string. *)
Theorem no_blank_line_no_empty_chunk (text chunk : pystr) :
  Forall (fun line => ~ blank line) (splitlines text) ->
  chunk ∈ chunks text -> chunk <> [].
Proof.
  intros Hlines Hin.
  pose proof (chunking_no_empty_chunk _ _
                (chunk_lines_chunking (splitlines text)) Hlines) as Hall.
  rewrite Forall_forall in Hall. by apply Hall.
Qed.

Lemma no_blank_line_no_empty_chunk_witness : lit "Hola" <> [].
Proof.
  apply (no_blank_line_no_empty_chunk two_chunk_text (lit "Hola")).
  - rewrite two_chunk_text_lines.
    repeat constructor; apply not_blank_by_strip; by vm_compute.
  - rewrite two_chunk_text_chunks. right. left.
Defined.

(** X5: a text of fewer than 450 characters, not empty, gives exactly one
    chunk: its lines joined by single spaces, trimmed. *)
Theorem short_text_one_chunk (text : pystr) :
  text <> [] -> (length text < 450)%nat ->
  chunks text = [strip (join [SP] (splitlines text))].
Proof.
  intros Hne Hlen. unfold chunks. apply chunk_lines_fits.
  - by rewrite splitlines_nil_iff.
  - pose proof (splitlines_buffer_length text). unfold max_chunk_length. lia.
Qed.

Lemma short_text_one_chunk_witness :
  chunks hola_mundo_text = [strip (join [SP] (splitlines hola_mundo_text))].
Proof.
  apply (short_text_one_chunk hola_mundo_text).
  - discriminate.
  - vm_compute. lia.
Defined.

(** X6: [translate_text] invokes the backend at most once; when it does, the
    keyword [max_length] is 512, the batch is the chunk sequence of
    [str(text)], which is not empty, and the value returned is a string. *)
Theorem backend_invoked_once
    (translator : list pystr -> nat -> outcome) (x : pyvalue) (c : call) :
  c ∈ (translate_text translator x).2 ->
  (translate_text translator x).2 = [c] /\
  call_max_length c = 512%nat /\
  call_batch c = chunks (py_str x) /\
  call_batch c <> [] /\
  exists out, (translate_text translator x).1 = PyStr out.
Proof.
  destruct (translate_text_cases translator x) as [-> | [Hnb ->]]; simpl.
  - by intros ?%elem_of_nil.
  - intros ->%list_elem_of_singleton. simpl.
    split; [done |]. split; [done |]. split; [done |].
    split; [by apply chunks_not_nil | by eexists].
Qed.

Lemma backend_invoked_once_witness :
  (translate_text identity_backend (PyStr hola_mundo_text)).2 =
    [Call (chunks hola_mundo_text) 512] /\
  chunks hola_mundo_text <> [].
Proof.
  destruct (backend_invoked_once identity_backend (PyStr hola_mundo_text)
              (Call (chunks hola_mundo_text) 512)) as (H1 & _ & _ & H4 & _).
  - rewrite identity_output by exact hola_mundo_text_not_blank. left.
  - split; [exact H1 | exact H4].
Defined.

(** X7: there are never more chunks than source lines. *)
Theorem chunk_count_at_most_lines (text : pystr) :
  (length (chunks text) <= length (splitlines text))%nat.
Proof. apply chunking_length, chunk_lines_chunking. Qed.

(** X8: when the Word document is built, its paragraphs joined again by
    blank lines are the text they were cut from, and there is at least one;
    it is built exactly when the text holds no character that
    [add_paragraph] refuses, and [add_paragraph] raises otherwise. *)
Theorem word_paragraphs_rejoin (s : pystr) :
  (forall paragraphs,
     word_paragraphs s = Some paragraphs ->
     reassemble paragraphs = s /\ paragraphs <> []) /\
  (is_Some (word_paragraphs s) <-> Forall (fun c => xml_char c = true) s).
Proof.
  split.
  - intros paragraphs [-> _]%word_paragraphs_inv.
    unfold split_paragraphs, reassemble. split.
    + by rewrite (join_split_from (length s)).
    + apply split_from_not_nil.
  - split.
    + intros [paragraphs [_ Hs]%word_paragraphs_inv]. exact Hs.
    + intros Hs. rewrite word_paragraphs_Some by exact Hs. by eexists.
Qed.

Lemma word_paragraphs_rejoin_witness :
  reassemble [lit "Hello"; lit "world"] =
    lit "Hello" ++ [LF; LF] ++ lit "world" /\
  [lit "Hello"; lit "world"] <> [].
Proof.
  destruct (word_paragraphs_rejoin (lit "Hello" ++ [LF; LF] ++ lit "world"))
    as [Hsome _].
  apply (Hsome [lit "Hello"; lit "world"]). vm_compute. reflexivity.
Defined.

(** X9: when no translated segment holds a newline or a character that
    [add_paragraph] refuses, the Word download of the reassembled document
    has one paragraph for each segment, in order. *)
Theorem paragraph_per_translation (translations : list pystr) :
  translations <> [] ->
  Forall (Forall (fun c => c <> LF)) translations ->
  Forall (Forall (fun c => xml_char c = true)) translations ->
  word_paragraphs (reassemble translations) = Some translations.
Proof.
  intros Hne Hts Hxml. unfold reassemble.
  rewrite word_paragraphs_Some by by apply xml_text_join.
  f_equal. by apply split_join.
Qed.

Lemma paragraph_per_translation_witness :
  word_paragraphs (reassemble [lit "Hello"; lit "world"]) =
    Some [lit "Hello"; lit "world"].
Proof.
  apply (paragraph_per_translation [lit "Hello"; lit "world"]).
  - discriminate.
  - repeat constructor; by vm_compute.
  - repeat constructor.
Defined.

(** X10: on the text-file and PDF paths, when the backend answers a text
    that is not blank with results whose texts hold no newline and no
    character that [add_paragraph] refuses, the translated text is these
    texts joined by blank lines and the Word download has one paragraph for
    each of them. *)
Theorem upload_paragraphs
    (translator : list pystr -> nat -> outcome) (text : pystr)
    (results : list (gmap pystr pystr)) (outs : list pystr) :
  ~ blank text ->
  translator (chunks text) 512%nat = Returned results ->
  Forall2 (fun r out => r !! translation_text = Some out) results outs ->
  outs <> [] ->
  Forall (Forall (fun c => c <> LF)) outs ->
  Forall (Forall (fun c => xml_char c = true)) outs ->
  translate_upload translator text =
    (Some (join [LF; LF] outs, Some outs), [Call (chunks text) 512]).
Proof.
  intros Hnb Hret Houts Hne Hnl Hxml. unfold translate_upload.
  rewrite translate_text_str by done.
  rewrite (translate_batch_returned _ _ _ _ Hret Houts).
  unfold reassemble. rewrite word_paragraphs_Some by by apply xml_text_join.
  by rewrite split_join.
Qed.

Lemma upload_paragraphs_witness :
  translate_upload (backend_of stub) two_chunk_text =
    (Some (join [LF; LF] [replicate 450 97; lit "Hello"],
           Some [replicate 450 97; lit "Hello"]),
     [Call (chunks two_chunk_text) 512]).
Proof.
  apply (upload_paragraphs (backend_of stub) two_chunk_text
           (result_of <$> [replicate 450 97; lit "Hello"])
           [replicate 450 97; lit "Hello"] two_chunk_text_not_blank).
  - rewrite two_chunk_text_chunks. reflexivity.
  - repeat constructor; apply result_of_lookup.
  - discriminate.
  - constructor; [apply Forall_replicate; discriminate |].
    repeat constructor; by vm_compute.
  - constructor; [apply Forall_replicate; reflexivity |].
    repeat constructor.
Defined.





Lemma pdf_text_nonws (page_texts : list (option pystr)) :
  nonws (pdf_text page_texts) = nonws (concat (kept_pages page_texts)).
Proof.
  rewrite pdf_text_kept. generalize (kept_pages page_texts). intros l.
  induction l as [|t l IH]; [done |].
  rewrite fmap_cons, !concat_cons, !nonws_app, IH.
  by rewrite (nonws_cons_space LF), app_nil_r.
Qed.

(** X13: the text of a PDF is the texts of its pages in order, each
    followed by one newline; a page adds to it exactly when its text is a
    string that is not empty, so the characters that are not whitespace are
    those of the pages, in order. *)
Theorem pdf_text_of_pages (page_texts : list (option pystr)) :
  pdf_text page_texts =
    concat ((fun t : pystr => t ++ [LF]) <$> kept_pages page_texts) /\
  (forall t, t ∈ kept_pages page_texts <-> Some t ∈ page_texts /\ t <> []) /\
  nonws (pdf_text page_texts) = nonws (concat (kept_pages page_texts)).
Proof.
  split; [apply pdf_text_kept |]. split; [apply kept_pages_elem |].
  apply pdf_text_nonws.
Qed.

(** X14: no line of the text of a PDF runs over two pages: its lines are the
    lines of the pages that give text, page after page. *)
Theorem pdf_lines_within_pages (page_texts : list (option pystr)) :
  splitlines (pdf_text page_texts) =
    concat ((fun t : pystr => splitlines (t ++ [LF]))
            <$> kept_pages page_texts).
Proof.
  rewrite pdf_text_kept. generalize (kept_pages page_texts). intros l.
  induction l as [|t l IH]; [done |].
  rewrite !fmap_cons, !concat_cons, <- IH, <- app_assoc.
  apply splitlines_newline.
Qed.

(** X15: a PDF whose pages give no text, or whitespace only, is not sent to
    the backend: the translated text is the text read, and it is blank; the
    Word download is then built from that text, which raises when it holds
    a character that [add_paragraph] refuses, such as a form feed. *)
Theorem pdf_blank_pages_no_call
    (translator : list pystr -> nat -> outcome)
    (page_texts : list (option pystr)) :
  (forall t, Some t ∈ page_texts -> blank t) ->
  blank (pdf_text page_texts) /\
  translate_pdf translator page_texts =
    (Some (pdf_text page_texts, word_paragraphs (pdf_text page_texts)), []).
Proof.
  intros Hpages.
  assert (Hb : blank (pdf_text page_texts)).
  { rewrite pdf_text_kept. apply blank_concat, Forall_fmap, Forall_forall.
    intros t [Hin _]%kept_pages_elem. simpl. apply blank_app. split.
    - by apply Hpages.
    - by repeat constructor. }
  split; [done |]. unfold translate_pdf, translate_upload.
  by rewrite translate_text_skip by by right.
Qed.

Lemma pdf_blank_pages_no_call_witness :
  translate_pdf identity_backend blank_pages =
    (Some ([SP; LF], Some [[SP; LF]]), []) /\
  translate_pdf identity_backend form_feed_pages =
    (Some ([12; LF], None), []).
Proof.
  split.
  - destruct (pdf_blank_pages_no_call identity_backend blank_pages) as [_ H].
    + intros t Hin. unfold blank_pages in Hin.
      repeat (apply elem_of_cons in Hin as [Hin | Hin];
              [by simplify_eq; repeat constructor |]).
      by apply elem_of_nil in Hin.
    + rewrite H. reflexivity.
  - destruct (pdf_blank_pages_no_call identity_backend form_feed_pages)
      as [_ H].
    + intros t Hin. unfold form_feed_pages in Hin.
      apply list_elem_of_singleton in Hin. simplify_eq. repeat constructor.
    + rewrite H. reflexivity.
Defined.

(** X16: with the identity backend the translated text of a PDF has the
    characters that are not whitespace of its pages, in order. *)
Theorem pdf_identity_content (page_texts : list (option pystr)) :
  exists s paragraphs calls,
    translate_pdf identity_backend page_texts = (Some (s, paragraphs), calls) /\
    nonws s = nonws (concat (kept_pages page_texts)).
Proof.
  pose proof (pdf_text_nonws page_texts) as Hnw.
  unfold translate_pdf, translate_upload.
  destruct (decide (blank (pdf_text page_texts))) as [Hb | Hnb].
  - rewrite translate_text_skip by by right. by do 3 eexists.
  - rewrite identity_output by done. do 3 eexists. split; [done |].
    rewrite nonws_join by by repeat constructor. by rewrite chunks_nonws.
Qed.

(** ** The spreadsheet *)

Lemma translate_cell_calls (translator : list pystr -> nat -> outcome)
    (x : pyvalue) :
  (translatable x = false /\ translate_cell translator x = (x, [])) \/
  (translatable x = true /\
   exists s out, x = PyStr s /\ chunks s <> [] /\
     translate_cell translator x = (PyStr out, [Call (chunks s) 512])).
Proof.
  destruct x as [| | |s|]; try (left; done).
  unfold translate_cell, translatable.
  destruct (nonempty (strip s)) eqn:Hs; [right | left; done].
  assert (Hnb : ~ blank s).
  { intros Hb. apply blank_strip in Hb. congruence. }
  split; [done |]. exists s. eexists. split; [done |].
  split; [by apply chunks_not_nil |]. by apply translate_text_str.
Qed.

Lemma column_calls (translator : list pystr -> nat -> outcome)
    (col : list pyvalue) :
  length (concat ((fun x : pyvalue => (translate_cell translator x).2) <$> col))
    = length (filter (fun x => translatable x = true) col) /\
  Forall (fun c => call_batch c <> [] /\ call_max_length c = 512%nat)
    (concat ((fun x : pyvalue => (translate_cell translator x).2) <$> col)).
Proof.
  induction col as [|x col [IHn IHf]]; [by split |].
  rewrite fmap_cons, concat_cons, length_app, filter_cons, Forall_app.
  destruct (translate_cell_calls translator x)
    as [[Hx ->] | [Hx (s & out & _ & Hcs & ->)]]; rewrite Hx; simpl.
  - split; [done |]. split; [constructor | done].
  - split; [by rewrite IHn |]. split; [| done]. by repeat constructor.
Qed.

Lemma df_translated_spec (translator : list pystr -> nat -> outcome)
    (df : list (list pyvalue)) :
  df_translated translator df =
    ((fun col : list pyvalue =>
        (fun x : pyvalue => (translate_cell translator x).1) <$> col) <$> df,
     concat ((fun col : list pyvalue =>
                concat ((fun x : pyvalue => (translate_cell translator x).2)
                        <$> col)) <$> df)).
Proof.
  unfold df_translated, applymap. rewrite map_calls_spec. f_equal.
  - apply list_fmap_ext. intros _ col _. by rewrite map_calls_spec.
  - f_equal. apply list_fmap_ext. intros _ col _. by rewrite map_calls_spec.
Qed.

(** X17: translating a spreadsheet keeps its shape and invokes the backend
    once for each cell that is a string with a character that is not
    whitespace, never with an empty batch. *)
Theorem spreadsheet_backend_calls
    (translator : list pystr -> nat -> outcome) (df : list (list pyvalue)) :
  length (df_translated translator df).2 =
    length (filter (fun x => translatable x = true) (concat df)) /\
  Forall (fun c => call_batch c <> [] /\ call_max_length c = 512%nat)
    (df_translated translator df).2 /\
  Forall2 (fun col col' : list pyvalue => length col' = length col)
    df (df_translated translator df).1.
Proof.
  rewrite df_translated_spec. simpl. split; [| split].
  - induction df as [|col df IH]; [done |].
    rewrite fmap_cons, !concat_cons, length_app, filter_app, length_app, IH.
    f_equal. apply column_calls.
  - apply Forall_concat, Forall_fmap, Forall_forall. intros col _.
    apply column_calls.
  - apply Forall2_fmap_r, Forall_Forall2_diag, Forall_forall.
    intros col _. simpl. by rewrite length_fmap.
Qed.

(** X18: a text of fewer than 450 characters is translated in one piece:
    with a backend that applies [f] to every text of the batch, the value
    returned is [f] of the lines joined by single spaces, trimmed. *)
Theorem short_text_translated_whole (f : pystr -> pystr) (text : pystr) :
  ~ blank text -> (length text < 450)%nat ->
  translate_text (backend_of f) (PyStr text) =
    (PyStr (f (strip (join [SP] (splitlines text)))),
     [Call [strip (join [SP] (splitlines text))] 512]).
Proof.
  intros Hnb Hlen.
  assert (Hcs : chunks text = [strip (join [SP] (splitlines text))]).
  { unfold chunks. apply chunk_lines_fits.
    - rewrite splitlines_nil_iff. intros ->. apply Hnb. constructor.
    - pose proof (splitlines_buffer_length text).
      unfold max_chunk_length. lia. }
  rewrite translate_text_str by done.
  by rewrite translate_batch_backend_of, Hcs.
Qed.

Lemma short_text_translated_whole_witness :
  translate_text (backend_of stub) (PyStr (lit "Hola")) =
    (PyStr (lit "Hello"), [Call [lit "Hola"] 512]).
Proof.
  rewrite (short_text_translated_whole stub (lit "Hola")).
  - by vm_compute.
  - apply not_blank_by_strip. by vm_compute.
  - vm_compute. lia.
Defined.

(** X19: on the text-file and PDF paths a backend failure whose message
    holds no newline and no character that [add_paragraph] refuses is
    exported like a translation: the translated text is the error text and
    the Word download has that one paragraph. *)
Theorem failure_single_paragraph
    (translator : list pystr -> nat -> outcome) (text e : pystr) :
  ~ blank text ->
  translator (chunks text) 512%nat = Raised e ->
  Forall (fun c => c <> LF) e ->
  Forall (fun c => xml_char c = true) e ->
  translate_upload translator text =
    (Some (lit "[Translation error: " ++ e ++ lit "]",
           Some [lit "[Translation error: " ++ e ++ lit "]"]),
     [Call (chunks text) 512]).
Proof.
  intros Hnb Hraise He Hxml. unfold translate_upload.
  rewrite translate_text_str by done. unfold translate_batch.
  rewrite Hraise. simpl reassemble. unfold error_text.
  rewrite word_paragraphs_Some.
  - unfold split_paragraphs. rewrite split_from_no_newline; [done |].
    apply Forall_app. split; [repeat constructor; by vm_compute |].
    apply Forall_app. split; [done | repeat constructor; by vm_compute].
  - apply Forall_app. split; [by repeat constructor |].
    apply Forall_app. split; [done | by repeat constructor].
Qed.

Lemma failure_single_paragraph_witness :
  translate_upload (failing_backend (lit "timeout")) two_chunk_text =
    (Some (lit "[Translation error: timeout]",
           Some [lit "[Translation error: timeout]"]),
     [Call (chunks two_chunk_text) 512]).
Proof.
  apply (failure_single_paragraph (failing_backend (lit "timeout"))
           two_chunk_text (lit "timeout") two_chunk_text_not_blank eq_refl).
  - repeat constructor; by vm_compute.
  - repeat constructor.
Defined.
